(** * Finding construction and override actions

    A shallow embedding of [playbooks/robusta_playbooks/common_actions.py]:
    the templating labels of an event's subject, the rendering of title and
    description templates with [string.Template.safe_substitute], and the two
    playbook actions [create_finding] and [customise_finding].

    Python strings are modelled as [string] (a sequence of 8-bit characters,
    read as the UTF-8 encoding of the text).  Every character the template
    pattern inspects (the delimiter, the braces, ASCII identifier characters)
    is a single ASCII byte, and no byte of a multi-byte UTF-8 sequence is an
    ASCII byte, so scanning bytes agrees with scanning code points. *)

From Stdlib Require Import Ascii.
From stdpp Require Import base option list strings gmap.

(** ** Python truthiness of an [Optional[str]]

    [x if x else y] takes the first branch only for a string that is neither
    [None] nor empty. *)

Definition truthy (o : option string) : bool :=
  match o with
  | Some s => negb (String.eqb s "")
  | None => false
  end.

(** [f(x) if x else y] *)
Definition if_truthy {A : Type} (o : option string) (f : string -> A) (y : A) : A :=
  match o with
  | Some s => if String.eqb s "" then y else f s
  | None => y
  end.

(** ** Mappings: [dict] and [collections.defaultdict]

    A mapping from strings to strings together with its optional default
    factory.  A plain [dict] has no factory; [defaultdict(lambda: v)] has the
    factory that returns [v].  Indexing a [defaultdict] at an absent key
    stores the default under that key and returns it, so indexing returns
    the mapping as well. *)

Module Mapping.

Record t := mk {
  items : gmap string string;
  default_factory : option string
}.

Definition dict (m : gmap string string) : t := mk m None.

Definition defaultdict (v : string) : t := mk ∅ (Some v).

(** [d.update({k1: v1, ...})], the pairs taken in the order written. *)
Definition update (d : t) (kvs : list (string * string)) : t :=
  mk (foldl (fun m kv => <[kv.1 := kv.2]> m) (items d) kvs) (default_factory d).

(** [d[k]]: [None] stands for [KeyError]. *)
Definition getitem (d : t) (k : string) : option string * t :=
  match items d !! k with
  | Some v => (Some v, d)
  | None =>
      match default_factory d with
      | Some v => (Some v, mk (<[k := v]> (items d)) (default_factory d))
      | None => (None, d)
      end
  end.

(** [k in d] *)
Definition contains (d : t) (k : string) : bool :=
  bool_decide (is_Some (items d !! k)).

(** The value of [d[k]], without the update of the mapping. *)
Definition value (d : t) (k : string) : option string :=
  match items d !! k with
  | Some v => Some v
  | None => default_factory d
  end.

End Mapping.

(** ** [string.Template]

    The default pattern of [string.Template] is a delimiter followed by one
    of four alternatives, tried in this order: [escaped], a second delimiter;
    [named], an identifier; [braced], an identifier between braces;
    [invalid], the empty string.  An identifier is one character of [_a-z]
    followed by any number of characters of [_a-z0-9], ASCII only, and the
    pattern is compiled with [re.IGNORECASE]. *)

Module Template.

Definition delimiter : ascii := "$"%char.

Definition is_lower (c : ascii) : bool :=
  (Ascii.leb "a" c && Ascii.leb c "z")%char.

Definition is_upper (c : ascii) : bool :=
  (Ascii.leb "A" c && Ascii.leb c "Z")%char.

Definition is_digit (c : ascii) : bool :=
  (Ascii.leb "0" c && Ascii.leb c "9")%char.

(** [[_a-z]] under [re.IGNORECASE] *)
Definition is_id_start (c : ascii) : bool :=
  Ascii.eqb c "_"%char || is_lower c || is_upper c.

(** [[_a-z0-9]] under [re.IGNORECASE] *)
Definition is_id_char (c : ascii) : bool :=
  is_id_start c || is_digit c.

(** The greedy run [[_a-z0-9]*] at the head of [s], and what follows it. *)
Fixpoint span_id (s : string) : string * string :=
  match s with
  | String c tl =>
      if is_id_char c
      then let '(run, after) := span_id tl in (String c run, after)
      else ("", s)
  | EmptyString => ("", "")
  end.

(** Which alternative of the pattern matched. *)
Inductive MatchGroup :=
| escaped
| named (id : string)
| braced (id : string)
| invalid.

(** The match of the pattern at a delimiter, given the text [rest] that
    follows the delimiter.  The alternatives are tried in the order of the
    pattern; the last one matches the empty string, so there is always a
    match. *)
Definition pattern_at (rest : string) : MatchGroup :=
  match rest with
  | String c tl =>
      if Ascii.eqb c delimiter then escaped
      else if is_id_start c then named (span_id rest).1
      else if Ascii.eqb c "{"%char then
        match tl with
        | String c' _ =>
            if is_id_start c' then
              match span_id tl with
              | (id, String "}"%char _) => braced id
              | _ => invalid
              end
            else invalid
        | EmptyString => invalid
        end
      else invalid
  | EmptyString => invalid
  end.

(** [mo.group()]: the whole text of the match. *)
Definition group0 (g : MatchGroup) : string :=
  match g with
  | escaped => "$$"
  | named id => "$" +:+ id
  | braced id => "${" +:+ id +:+ "}"
  | invalid => "$"
  end.

(** The helper [convert] of [safe_substitute]: the replacement text of one
    match.  A [KeyError] of the mapping leaves the match as it is. *)
Definition convert (g : MatchGroup) (mapping : Mapping.t) : string * Mapping.t :=
  match g with
  | named id | braced id =>
      match Mapping.getitem mapping id with
      | (Some v, mapping') => (v, mapping')
      | (None, mapping') => (group0 g, mapping')
      end
  | escaped => (String delimiter "", mapping)
  | invalid => (group0 g, mapping)
  end.

(** [pattern.sub(convert, template)]: the matches are found from left to
    right and do not overlap.  [skip] counts the characters of the current
    match that are still to be passed over. *)
Fixpoint sub (skip : nat) (s : string) (mapping : Mapping.t) : string * Mapping.t :=
  match s with
  | EmptyString => ("", mapping)
  | String c rest =>
      match skip with
      | S k => sub k rest mapping
      | O =>
          if Ascii.eqb c delimiter then
            let g := pattern_at rest in
            let '(repl, mapping1) := convert g mapping in
            let '(out, mapping2) := sub (String.length (group0 g) - 1) rest mapping1 in
            (repl +:+ out, mapping2)
          else
            let '(out, mapping') := sub 0 rest mapping in
            (String c out, mapping')
      end
  end.

(** [Template(template).safe_substitute(mapping)] *)
Definition safe_substitute (template : string) (mapping : Mapping.t) : string * Mapping.t :=
  sub 0 template mapping.

(** The strings the identifier pattern matches as a whole. *)
Fixpoint all_id_chars (s : string) : bool :=
  match s with
  | String c tl => is_id_char c && all_id_chars tl
  | EmptyString => true
  end.

Definition is_identifier (s : string) : bool :=
  match s with
  | String c tl => is_id_start c && all_id_chars tl
  | EmptyString => false
  end.

(** Text without a delimiter: the pattern matches nowhere in it. *)
Fixpoint no_delimiter (s : string) : bool :=
  match s with
  | String c tl => negb (Ascii.eqb c delimiter) && no_delimiter tl
  | EmptyString => true
  end.

(** Text that cannot continue an identifier: it is empty or starts with a
    character that is not an identifier character. *)
Definition ends_identifier (s : string) : bool :=
  match s with
  | String c _ => negb (is_id_char c)
  | EmptyString => true
  end.

End Template.

(** ** The data of a finding *)

(** Modelled from the spec: the enumeration [FindingSeverity] of
    [robusta.api], which this module imports.  It has the five members
    DEBUG, INFO, LOW, MEDIUM and HIGH, in that order, and is parsed from a
    case-sensitive member name; a name that is not one of the five is an
    error. *)
Module FindingSeverity.

Inductive t := DEBUG | INFO | LOW | MEDIUM | HIGH.

#[global] Instance eq_dec : EqDecision t.
Proof. solve_decision. Defined.

(** The table of the member names. *)
Definition members : list (string * t) :=
  [("DEBUG", DEBUG); ("INFO", INFO); ("LOW", LOW); ("MEDIUM", MEDIUM);
   ("HIGH", HIGH)].

Definition names : list string := members.*1.

Fixpoint lookup_name (table : list (string * t)) (name : string) : option t :=
  match table with
  | (n, v) :: table' => if String.eqb n name then Some v else lookup_name table' name
  | [] => None
  end.

(** [FindingSeverity[name]]: [None] stands for the error of an
    unrecognised name. *)
Definition getitem (name : string) : option t := lookup_name members name.

(** [FindingSeverity.from_severity(severity)]: the same name-based parser.
    The argument is an [Optional[str]]; [None] is not a member name. *)
Definition from_severity (severity : option string) : option t :=
  match severity with
  | Some name => lookup_name members name
  | None => None
  end.

End FindingSeverity.

(** Modelled from the spec: the enumerated kind of a subject (Pod, Node,
    Job, ...), declared in [robusta.api].  Only the display string [value]
    of a member is used here, so a member is represented by it. *)
Module FindingSubjectType.
Record t := mk { value : string }.
End FindingSubjectType.

(** Modelled from the spec: the subject of an event, declared in
    [robusta.api]: a required name, a kind, an optional namespace and an
    optional node. *)
Module FindingSubject.
Record t := mk {
  name : string;
  subject_type : FindingSubjectType.t;
  namespace : option string;
  node : option string
}.
End FindingSubject.

(** Modelled from the spec: the source of an event identifies the
    integration that produced it; it is only carried along here. *)
Definition FindingSource := string.

(** Modelled from the spec: the notification record [Finding] of
    [robusta.api], with the attributes its constructor is given here. *)
Module Finding.
Record t := mk {
  title : string;
  description : option string;
  aggregation_key : string;
  severity : FindingSeverity.t;
  subject : FindingSubject.t;
  source : FindingSource
}.
End Finding.

(** ** The event and the effects of an action *)

(** The side-effecting calls an action makes on its event. *)
Inductive HostCall :=
| AddFinding (finding : Finding.t)
| OverrideFindingAttributes (title description : option string)
                            (severity : option FindingSeverity.t).

(** Modelled from the spec: the event [ExecutionBaseEvent] of [robusta.api].
    It carries its subject and source and accumulates findings.  [calls] is
    the history of the side-effecting calls made on the event, oldest
    first, kept to state which calls an action makes. *)
Module ExecutionBaseEvent.
Record t := mk {
  subject : FindingSubject.t;
  source : FindingSource;
  findings : list Finding.t;
  calls : list HostCall
}.
End ExecutionBaseEvent.

(** The only error raised here. *)
Inductive exn := InvalidSeverity.

Inductive outcome (A : Type) :=
| Returned (a : A)
| Raised (e : exn).
Arguments Returned {A} a.
Arguments Raised {A} e.

(** An action step runs on the event, which it may mutate, and returns or
    raises.  The event as it is when the exception is raised is kept: what
    was mutated before stays mutated. *)
Definition Py (A : Type) : Type :=
  ExecutionBaseEvent.t -> outcome A * ExecutionBaseEvent.t.

Definition ret {A} (a : A) : Py A := fun ev => (Returned a, ev).

Definition raise {A} (e : exn) : Py A := fun ev => (Raised e, ev).

Definition bind {A B} (m : Py A) (k : A -> Py B) : Py B :=
  fun ev =>
    match m ev with
    | (Returned a, ev') => k a ev'
    | (Raised e, ev') => (Raised e, ev')
    end.

Notation "'do' x <- m ; k" := (bind m (fun x => k))
  (at level 10, x pattern, m at level 100, k at level 200).

(** An enum lookup that found no member raises. *)
Definition or_raise {A} (o : option A) (e : exn) : Py A :=
  match o with
  | Some a => ret a
  | None => raise e
  end.

Definition get_subject : Py FindingSubject.t :=
  fun ev => (Returned (ExecutionBaseEvent.subject ev), ev).

Definition get_source : Py FindingSource :=
  fun ev => (Returned (ExecutionBaseEvent.source ev), ev).

(** Modelled from the spec: [Event.addFinding(Finding)] appends a finding to
    the findings the event has accumulated. *)
Definition add_finding (finding : Finding.t) : Py unit :=
  fun ev =>
    (Returned tt,
     ExecutionBaseEvent.mk
       (ExecutionBaseEvent.subject ev) (ExecutionBaseEvent.source ev)
       (ExecutionBaseEvent.findings ev ++ [finding])
       (ExecutionBaseEvent.calls ev ++ [AddFinding finding])).

(** One finding under an override: a field that is given replaces the
    attribute, an absent one leaves it as it was. *)
Definition override_attributes (title description : option string)
    (severity : option FindingSeverity.t) (f : Finding.t) : Finding.t :=
  Finding.mk
    (default (Finding.title f) title)
    (match description with
     | Some d => Some d
     | None => Finding.description f
     end)
    (Finding.aggregation_key f)
    (default (Finding.severity f) severity)
    (Finding.subject f)
    (Finding.source f).

(** Modelled from the spec: [Event.overrideFindingAttributes(title,
    description, severity)] acts on whatever findings the event currently
    holds, applying only the fields that are not absent. *)
Definition override_finding_attributes (title description : option string)
    (severity : option FindingSeverity.t) : Py unit :=
  fun ev =>
    (Returned tt,
     ExecutionBaseEvent.mk
       (ExecutionBaseEvent.subject ev) (ExecutionBaseEvent.source ev)
       (override_attributes title description severity <$> ExecutionBaseEvent.findings ev)
       (ExecutionBaseEvent.calls ev ++ [OverrideFindingAttributes title description severity])).

(** ** [common_actions.py] *)

Definition missing : string := "<missing>".

(** The keys [_get_templating_labels] stores explicitly. *)
Definition label_keys : list string := ["name"; "kind"; "namespace"; "node"].

(** The labels [_get_templating_labels] builds once it has the subject. *)
Definition templating_labels (subject : FindingSubject.t) : Mapping.t :=
  let labels := Mapping.defaultdict missing in
  Mapping.update labels
    [("name", FindingSubject.name subject);
     ("kind", FindingSubjectType.value (FindingSubject.subject_type subject));
     ("namespace", if_truthy (FindingSubject.namespace subject) id missing);
     ("node", if_truthy (FindingSubject.node subject) id missing)].

(** [_get_templating_labels(event)] *)
Definition _get_templating_labels : Py Mapping.t :=
  do subject <- get_subject;
  ret (templating_labels subject).

(** The text [Template(template).safe_substitute(labels)] returns. *)
Definition render (template : string) (labels : Mapping.t) : string :=
  (Template.safe_substitute template labels).1.

(** [Template(template).safe_substitute(labels)] as the value of an optional
    field. *)
Definition substitute_some (template : string) (labels : Mapping.t)
    : option string * Mapping.t :=
  let '(text, labels') := Template.safe_substitute template labels in
  (Some text, labels').

(** The parameters of [customise_finding]; every field defaults to [None]. *)
Module FindingOverrides.
Record t := mk {
  title : option string;
  description : option string;
  severity : option string
}.
End FindingOverrides.

(** [customise_finding(event, params)] *)
Definition customise_finding (params : FindingOverrides.t) : Py unit :=
  do severity <-
    if_truthy (FindingOverrides.severity params)
      (fun name =>
         do v <- or_raise (FindingSeverity.getitem name) InvalidSeverity;
         ret (Some v))
      (ret None);
  do labels <- _get_templating_labels;
  let '(title, labels) :=
    if_truthy (FindingOverrides.title params)
      (fun template => substitute_some template labels) (None, labels) in
  let '(description, labels) :=
    if_truthy (FindingOverrides.description params)
      (fun template => substitute_some template labels) (None, labels) in
  override_finding_attributes title description severity.

(** The parameters of [create_finding]. *)
Module FindingFields.
Record t := mk {
  title : string;
  aggregation_key : string;
  description : option string;
  severity : option string
}.

(** The declared defaults of the optional fields. *)
Definition default_description : option string := None.
Definition default_severity : option string := Some "HIGH".

(** A parameter record built from the fields that were supplied: the outer
    [None] of an optional field says that the field was omitted. *)
Definition make (title aggregation_key : string)
    (description severity : option (option string)) : t :=
  mk title aggregation_key
     (default default_description description)
     (default default_severity severity).
End FindingFields.

(** [create_finding(event, params)]: the arguments of [Finding] are
    evaluated in the order written, then the finding is constructed and
    added. *)
Definition create_finding (params : FindingFields.t) : Py unit :=
  do labels <- _get_templating_labels;
  let '(title, labels) :=
    Template.safe_substitute (FindingFields.title params) labels in
  let '(description, labels) :=
    if_truthy (FindingFields.description params)
      (fun template => substitute_some template labels) (None, labels) in
  let aggregation_key := FindingFields.aggregation_key params in
  do severity <- or_raise (FindingSeverity.from_severity (FindingFields.severity params))
                          InvalidSeverity;
  do subject <- get_subject;
  do source <- get_source;
  add_finding (Finding.mk title description aggregation_key severity subject source).


(** ** Values used in the examples *)

Definition api_pod (node : option string) : FindingSubject.t :=
  FindingSubject.mk "api-1" (FindingSubjectType.mk "Pod") (Some "prod") node.

Definition example_event : ExecutionBaseEvent.t :=
  ExecutionBaseEvent.mk (api_pod None) "prometheus" [] [].

Definition old_finding : Finding.t :=
  Finding.mk "Old Title" (Some "Old description") "Crashing Pod"
             FindingSeverity.HIGH (api_pod None) "prometheus".

Definition event_with_finding : ExecutionBaseEvent.t :=
  ExecutionBaseEvent.mk (api_pod None) "prometheus"
                        [old_finding] [AddFinding old_finding].

(** * Properties *)

(** ** Mappings *)

Section mapping_facts.
Implicit Types (d : Mapping.t) (k : string).

Lemma getitem_fst d k : (Mapping.getitem d k).1 = Mapping.value d k.
Proof.
  unfold Mapping.getitem, Mapping.value.
  destruct (Mapping.items d !! k); [done|].
  by destruct (Mapping.default_factory d).
Qed.

(** Indexing stores only what indexing would return anyway. *)
Lemma getitem_value d k k' :
  Mapping.value (Mapping.getitem d k).2 k' = Mapping.value d k'.
Proof.
  unfold Mapping.getitem, Mapping.value.
  destruct (Mapping.items d !! k) as [v|] eqn:Hk; [done|].
  destruct (Mapping.default_factory d) as [v|] eqn:Hf; simpl; [|by rewrite Hf].
  destruct (decide (k = k')) as [<-|Hne].
  - by rewrite lookup_insert_eq, Hk.
  - by rewrite lookup_insert_ne.
Qed.

Lemma value_dict (m : gmap string string) k :
  Mapping.value (Mapping.dict m) k = m !! k.
Proof. unfold Mapping.value; simpl. by destruct (m !! k). Qed.

End mapping_facts.

(** ** The template pattern *)

Section template_facts.
Import Template.

Lemma append_empty_r (s : string) : s +:+ "" = s.
Proof. induction s as [|c s IH]; [done|]. exact (f_equal (String c) IH). Qed.

Lemma length_append (s t : string) :
  String.length (s +:+ t) = String.length s + String.length t.
Proof. induction s as [|c s IH]; [done|]. exact (f_equal S IH). Qed.

(** The delimiter and the braces are not identifier characters. *)
Lemma id_char_not_special c :
  is_id_char c = true ->
  Ascii.eqb c delimiter = false /\ Ascii.eqb c "{" = false /\ Ascii.eqb c "}" = false.
Proof.
  destruct c as [[] [] [] [] [] [] [] []]; vm_compute; intros H;
    first [discriminate H | done].
Qed.

Lemma id_start_id_char c : is_id_start c = true -> is_id_char c = true.
Proof. unfold is_id_char. by intros ->. Qed.

(** The greedy run takes a whole run of identifier characters and stops at
    the first character that is not one. *)
Lemma span_id_run (s after : string) :
  all_id_chars s = true ->
  (span_id after).1 = "" ->
  span_id (s +:+ after) = (s, after).
Proof.
  intros Hs Hafter. induction s as [|c s IH]; simpl in *.
  - destruct after as [|c after]; [done|]. simpl in *.
    destruct (is_id_char c); [|done].
    by destruct (span_id after).
  - apply andb_prop in Hs as [-> Hs]. by rewrite (IH Hs).
Qed.

Lemma span_id_whole (s : string) :
  all_id_chars s = true -> span_id s = (s, "").
Proof.
  intros Hs. rewrite <-(append_empty_r s) at 1. by apply span_id_run.
Qed.

(** Passing over the text of a match. *)
Lemma sub_skip (s rest : string) d :
  sub (String.length s) (s +:+ rest) d = sub 0 rest d.
Proof. induction s as [|c s IH]; simpl; [by destruct rest|]. apply IH. Qed.

Lemma sub_skip_all (s : string) d : sub (String.length s) s d = ("", d).
Proof.
  rewrite <-(append_empty_r s) at 2. by rewrite sub_skip.
Qed.

Lemma pattern_at_named (key after : string) :
  is_identifier key = true ->
  (span_id after).1 = "" ->
  pattern_at (key +:+ after) = named key.
Proof.
  destruct key as [|c key]; [done|]. simpl. intros [Hc Hkey]%andb_prop Hafter.
  destruct (id_char_not_special c (id_start_id_char c Hc)) as (-> & _ & _).
  rewrite Hc, (id_start_id_char c Hc).
  by rewrite (span_id_run key after Hkey Hafter).
Qed.

Lemma pattern_at_braced (key after : string) :
  is_identifier key = true ->
  pattern_at ("{" +:+ key +:+ "}" +:+ after) = braced key.
Proof.
  destruct key as [|c key]; [done|]. intros Hid.
  pose proof Hid as [Hc Hkey]%andb_prop.
  change (pattern_at ("{" +:+ String c key +:+ "}" +:+ after))
    with (if is_id_start c then
            match span_id (String c key +:+ String "}" after) with
            | (id, String "}"%char _) => braced id
            | _ => invalid
            end
          else invalid).
  rewrite Hc.
  rewrite (span_id_run (String c key) (String "}" after)); [done| |done].
  simpl. by rewrite (id_start_id_char c Hc), Hkey.
Qed.

(** Substitution changes no value of the mapping: what it stores is what
    indexing returned. *)
Lemma convert_value g d k :
  Mapping.value (convert g d).2 k = Mapping.value d k.
Proof.
  destruct g as [|id|id|]; simpl; try done;
    pose proof (getitem_value d id k) as Hv;
    by destruct (Mapping.getitem d id) as [[v|] d'].
Qed.

Lemma sub_value (s : string) : forall skip d k,
  Mapping.value (sub skip s d).2 k = Mapping.value d k.
Proof.
  induction s as [|c s IH]; intros skip d k; simpl; [done|].
  destruct skip as [|skip]; [|apply IH].
  destruct (Ascii.eqb c delimiter).
  - pose proof (convert_value (pattern_at s) d k) as Hc.
    destruct (convert (pattern_at s) d) as [repl d1].
    pose proof (IH (String.length (group0 (pattern_at s)) - 1) d1 k) as Hs.
    destruct (sub _ s d1) as [out d2]. simpl in *. congruence.
  - pose proof (IH 0 d k) as Hs.
    by destruct (sub 0 s d) as [out d'].
Qed.

(** The text a substitution returns depends on the values of the mapping
    only. *)
Lemma convert_ext g d d' :
  (forall k, Mapping.value d k = Mapping.value d' k) ->
  (convert g d).1 = (convert g d').1.
Proof.
  intros Hext.
  destruct g as [|id|id|]; simpl; try done;
    pose proof (getitem_fst d id) as H1; pose proof (getitem_fst d' id) as H2;
    rewrite (Hext id) in H1;
    destruct (Mapping.getitem d id) as [o1 d1], (Mapping.getitem d' id) as [o2 d2];
    simpl in *; subst; by destruct (Mapping.value d' id).
Qed.

Lemma sub_ext (s : string) : forall skip d d',
  (forall k, Mapping.value d k = Mapping.value d' k) ->
  (sub skip s d).1 = (sub skip s d').1.
Proof.
  induction s as [|c s IH]; intros skip d d' Hext; simpl; [done|].
  destruct skip as [|skip]; [|by apply IH].
  destruct (Ascii.eqb c delimiter).
  - pose proof (convert_ext (pattern_at s) d d' Hext) as Hc.
    assert (forall k, Mapping.value (convert (pattern_at s) d).2 k
                      = Mapping.value (convert (pattern_at s) d').2 k) as Hext'.
    { intros k. by rewrite !convert_value. }
    destruct (convert (pattern_at s) d) as [r1 d1],
             (convert (pattern_at s) d') as [r2 d2].
    pose proof (IH (String.length (group0 (pattern_at s)) - 1) d1 d2 Hext') as Hs.
    destruct (sub _ s d1) as [o1 e1], (sub _ s d2) as [o2 e2].
    simpl in *. congruence.
  - pose proof (IH 0 d d' Hext) as Hs.
    destruct (sub 0 s d) as [o1 e1], (sub 0 s d') as [o2 e2].
    simpl in *. congruence.
Qed.

(** Rendering after an earlier rendering against the same labels. *)
Lemma render_after (t u : string) d :
  render u (safe_substitute t d).2 = render u d.
Proof.
  unfold render, safe_substitute. apply sub_ext. intros k. apply sub_value.
Qed.

Lemma append_assoc (s t u : string) : (s +:+ t) +:+ u = s +:+ t +:+ u.
Proof.
  induction s as [|c s IH]; [done|]. exact (f_equal (String c) IH).
Qed.

Lemma ends_identifier_span (s : string) :
  ends_identifier s = true -> (span_id s).1 = "".
Proof.
  destruct s as [|c s]; [done|]. simpl. by intros ->%negb_true_iff.
Qed.

(** Text without a delimiter is copied. *)
Lemma sub_literal (pre s : string) d :
  no_delimiter pre = true ->
  sub 0 (pre +:+ s) d = ((pre +:+ (sub 0 s d).1), (sub 0 s d).2).
Proof.
  induction pre as [|c pre IH]; intros Hpre.
  - change ("" +:+ s) with s. by destruct (sub 0 s d).
  - simpl in Hpre. apply andb_prop in Hpre as [Hc%negb_true_iff Hpre].
    change (String c pre +:+ s) with (String c (pre +:+ s)).
    cbn [sub]. rewrite Hc, (IH Hpre). reflexivity.
Qed.

(** A named placeholder, followed by text that ends the identifier. *)
Lemma sub_named (key post : string) d :
  is_identifier key = true ->
  ends_identifier post = true ->
  sub 0 (String delimiter (key +:+ post)) d
  = ((convert (named key) d).1 +:+ (sub 0 post (convert (named key) d).2).1,
     (sub 0 post (convert (named key) d).2).2).
Proof.
  intros Hid Hpost. cbn [sub].
  rewrite Ascii.eqb_refl, (pattern_at_named key post Hid (ends_identifier_span _ Hpost)).
  destruct (convert (named key) d) as [repl d1].
  replace (String.length (group0 (named key)) - 1) with (String.length key)
    by (cbn [group0]; rewrite length_append; simpl; lia).
  rewrite sub_skip. cbn [fst snd]. by destruct (sub 0 post d1).
Qed.

(** A braced placeholder, whatever follows it. *)
Lemma sub_braced (key post : string) d :
  is_identifier key = true ->
  sub 0 (String delimiter ("{" +:+ key +:+ "}" +:+ post)) d
  = ((convert (braced key) d).1 +:+ (sub 0 post (convert (braced key) d).2).1,
     (sub 0 post (convert (braced key) d).2).2).
Proof.
  intros Hid. cbn [sub].
  rewrite Ascii.eqb_refl, (pattern_at_braced key post Hid).
  destruct (convert (braced key) d) as [repl d1].
  replace (String.length (group0 (braced key)) - 1)
    with (String.length ("{" +:+ key +:+ "}"))
    by (cbn [group0]; rewrite !length_append; simpl; lia).
  replace ("{" +:+ key +:+ "}" +:+ post) with (("{" +:+ key +:+ "}") +:+ post)
    by (by rewrite !append_assoc).
  rewrite sub_skip. cbn [fst snd]. by destruct (sub 0 post d1).
Qed.

Lemma convert_named_fst (key : string) d :
  (convert (named key) d).1
  = match Mapping.value d key with
    | Some v => v
    | None => String delimiter key
    end.
Proof.
  cbn [convert]. pose proof (getitem_fst d key) as Hv.
  destruct (Mapping.getitem d key) as [o d1]. simpl in Hv. subst o.
  by destruct (Mapping.value d key).
Qed.

Lemma convert_braced_fst (key : string) d :
  (convert (braced key) d).1
  = match Mapping.value d key with
    | Some v => v
    | None => "${" +:+ key +:+ "}"
    end.
Proof.
  cbn [convert]. pose proof (getitem_fst d key) as Hv.
  destruct (Mapping.getitem d key) as [o d1]. simpl in Hv. subst o.
  by destruct (Mapping.value d key).
Qed.

(** Rendering a template around one named placeholder: the literal text
    before it is kept, the placeholder gives the value of the mapping or
    stays as it is, and the rest is rendered in turn. *)
Lemma render_named (pre key post : string) d :
  no_delimiter pre = true ->
  is_identifier key = true ->
  ends_identifier post = true ->
  render (pre +:+ String delimiter (key +:+ post)) d
  = pre +:+ match Mapping.value d key with
            | Some v => v
            | None => String delimiter key
            end +:+ render post d.
Proof.
  intros Hpre Hid Hpost. unfold render, safe_substitute.
  rewrite (sub_literal _ _ _ Hpre), (sub_named _ _ _ Hid Hpost). cbn [fst].
  rewrite convert_named_fst. do 2 f_equal.
  apply sub_ext. intros k. apply convert_value.
Qed.

Lemma render_braced (pre key post : string) d :
  no_delimiter pre = true ->
  is_identifier key = true ->
  render (pre +:+ String delimiter ("{" +:+ key +:+ "}" +:+ post)) d
  = pre +:+ match Mapping.value d key with
            | Some v => v
            | None => "${" +:+ key +:+ "}"
            end +:+ render post d.
Proof.
  intros Hpre Hid. unfold render, safe_substitute.
  rewrite (sub_literal _ _ _ Hpre), (sub_braced _ _ _ Hid). cbn [fst].
  rewrite convert_braced_fst. do 2 f_equal.
  apply sub_ext. intros k. apply convert_value.
Qed.

(** The templates that are one placeholder and nothing else. *)
Lemma render_one_named (key : string) d :
  is_identifier key = true ->
  render ("$" +:+ key) d
  = match Mapping.value d key with
    | Some v => v
    | None => "$" +:+ key
    end.
Proof.
  intros Hid.
  pose proof (render_named "" key "" d eq_refl Hid eq_refl) as H.
  rewrite append_empty_r in H.
  change (render (String delimiter key) d
          = match Mapping.value d key with
            | Some v => v
            | None => String delimiter key
            end +:+ "") in H.
  by rewrite append_empty_r in H.
Qed.

Lemma render_one_braced (key : string) d :
  is_identifier key = true ->
  render ("${" +:+ key +:+ "}") d
  = match Mapping.value d key with
    | Some v => v
    | None => "${" +:+ key +:+ "}"
    end.
Proof.
  intros Hid.
  pose proof (render_braced "" key "" d eq_refl Hid) as H.
  change (render (String delimiter (String "{" (key +:+ "}" +:+ ""))) d
          = match Mapping.value d key with
            | Some v => v
            | None => "${" +:+ key +:+ "}"
            end +:+ "") in H.
  by rewrite !append_empty_r in H.
Qed.

End template_facts.

(** ** The labels of a subject *)

Section label_facts.
Implicit Types (subject : FindingSubject.t) (k : string).

Lemma templating_labels_items subject :
  Mapping.items (templating_labels subject)
  = <["node" := if_truthy (FindingSubject.node subject) id missing]>
      (<["namespace" := if_truthy (FindingSubject.namespace subject) id missing]>
         (<["kind" := FindingSubjectType.value (FindingSubject.subject_type subject)]>
            (<["name" := FindingSubject.name subject]> ∅))).
Proof. reflexivity. Qed.

Lemma templating_labels_factory subject :
  Mapping.default_factory (templating_labels subject) = Some missing.
Proof. reflexivity. Qed.

Lemma labels_value_name subject :
  Mapping.value (templating_labels subject) "name" = Some (FindingSubject.name subject).
Proof.
  unfold Mapping.value. rewrite templating_labels_items. by simplify_map_eq.
Qed.

Lemma labels_value_kind subject :
  Mapping.value (templating_labels subject) "kind"
  = Some (FindingSubjectType.value (FindingSubject.subject_type subject)).
Proof.
  unfold Mapping.value. rewrite templating_labels_items. by simplify_map_eq.
Qed.

Lemma labels_value_namespace subject :
  Mapping.value (templating_labels subject) "namespace"
  = Some (if_truthy (FindingSubject.namespace subject) id missing).
Proof.
  unfold Mapping.value. rewrite templating_labels_items. by simplify_map_eq.
Qed.

Lemma labels_value_node subject :
  Mapping.value (templating_labels subject) "node"
  = Some (if_truthy (FindingSubject.node subject) id missing).
Proof.
  unfold Mapping.value. rewrite templating_labels_items. by simplify_map_eq.
Qed.

Lemma labels_items_other subject k :
  k ∉ label_keys -> Mapping.items (templating_labels subject) !! k = None.
Proof.
  intros Hk. rewrite templating_labels_items.
  rewrite !lookup_insert_ne; [apply lookup_empty|..];
    intros <-; apply Hk; unfold label_keys; set_solver.
Qed.

Lemma labels_value_other subject k :
  k ∉ label_keys -> Mapping.value (templating_labels subject) k = Some missing.
Proof.
  intros Hk. unfold Mapping.value. by rewrite labels_items_other.
Qed.

End label_facts.

(** ** Running the actions *)

Section action_facts.
Import ExecutionBaseEvent.

Lemma get_templating_labels_run ev :
  _get_templating_labels ev = (Returned (templating_labels (subject ev)), ev).
Proof. reflexivity. Qed.

(** An optional template is rendered only if it is neither [None] nor
    empty; an earlier rendering against the same labels does not matter. *)
Lemma optional_render_after (o : option string) (t : string) d :
  (if_truthy o (fun template => substitute_some template (Template.safe_substitute t d).2)
     (None, (Template.safe_substitute t d).2)).1
  = if_truthy o (fun template => Some (render template d)) None.
Proof.
  destruct o as [u|]; simpl; [|done].
  destruct (String.eqb u ""); [done|].
  unfold substitute_some.
  pose proof (render_after t u d) as H. unfold render in H.
  destruct (Template.safe_substitute u _) as [text d']. simpl in *. by rewrite H.
Qed.

Lemma optional_render (o : option string) d :
  (if_truthy o (fun template => substitute_some template d) (None, d)).1
  = if_truthy o (fun template => Some (render template d)) None.
Proof.
  destruct o as [u|]; simpl; [|done].
  destruct (String.eqb u ""); [done|].
  unfold substitute_some, render.
  by destruct (Template.safe_substitute u d) as [text d'].
Qed.

Lemma optional_render_value (o : option string) d k :
  Mapping.value (if_truthy o (fun template => substitute_some template d) (None, d)).2 k
  = Mapping.value d k.
Proof.
  destruct o as [u|]; simpl; [|done].
  destruct (String.eqb u ""); [done|].
  unfold substitute_some.
  pose proof (sub_value u 0 d k) as H. unfold Template.safe_substitute.
  by destruct (Template.sub 0 u d) as [text d'].
Qed.

(** [create_finding] in one step: it raises exactly when the severity name
    is not recognised, and otherwise adds the finding built from the
    rendered fields. *)
Lemma create_finding_run params ev :
  create_finding params ev
  = match FindingSeverity.from_severity (FindingFields.severity params) with
    | Some severity =>
        add_finding
          (Finding.mk
             (render (FindingFields.title params) (templating_labels (subject ev)))
             (if_truthy (FindingFields.description params)
                (fun template => Some (render template (templating_labels (subject ev))))
                None)
             (FindingFields.aggregation_key params)
             severity (subject ev) (source ev)) ev
    | None => (Raised InvalidSeverity, ev)
    end.
Proof.
  unfold create_finding, bind. rewrite get_templating_labels_run.
  pose proof (optional_render_after (FindingFields.description params)
                (FindingFields.title params) (templating_labels (subject ev))) as Hd.
  unfold render at 1.
  destruct (Template.safe_substitute (FindingFields.title params) _) as [title labels1].
  simpl in Hd |- *.
  destruct (if_truthy (FindingFields.description params) _ _) as [description labels2].
  simpl in Hd. subst description.
  by destruct (FindingSeverity.from_severity (FindingFields.severity params)).
Qed.

(** [customise_finding] in one step: it raises exactly when the severity is
    neither [None] nor empty and is not a recognised name, before anything
    else is done; otherwise it makes the one override call. *)
Lemma customise_finding_run params ev :
  customise_finding params ev
  = let run severity :=
      override_finding_attributes
        (if_truthy (FindingOverrides.title params)
           (fun template => Some (render template (templating_labels (subject ev))))
           None)
        (if_truthy (FindingOverrides.description params)
           (fun template => Some (render template (templating_labels (subject ev))))
           None)
        severity ev in
    if_truthy (FindingOverrides.severity params)
      (fun name =>
         match FindingSeverity.getitem name with
         | Some v => run (Some v)
         | None => (Raised InvalidSeverity, ev)
         end)
      (run None).
Proof.
  assert (forall severity,
    (let '(title, labels) :=
       if_truthy (FindingOverrides.title params)
         (fun template => substitute_some template (templating_labels (subject ev)))
         (None, templating_labels (subject ev)) in
     let '(description, _) :=
       if_truthy (FindingOverrides.description params)
         (fun template => substitute_some template labels) (None, labels) in
     override_finding_attributes title description severity) ev
    = override_finding_attributes
        (if_truthy (FindingOverrides.title params)
           (fun template => Some (render template (templating_labels (subject ev))))
           None)
        (if_truthy (FindingOverrides.description params)
           (fun template => Some (render template (templating_labels (subject ev))))
           None)
        severity ev) as Hrun.
  { intros severity.
    pose proof (optional_render (FindingOverrides.title params)
                  (templating_labels (subject ev))) as Ht.
    pose proof (optional_render_value (FindingOverrides.title params)
                  (templating_labels (subject ev))) as Hv.
    destruct (if_truthy (FindingOverrides.title params) _ _) as [title labels1].
    simpl in Ht, Hv. subst title.
    pose proof (optional_render (FindingOverrides.description params) labels1) as Hd.
    destruct (if_truthy (FindingOverrides.description params) _ _) as [description labels2].
    simpl in Hd. subst description.
    replace (if_truthy (FindingOverrides.description params)
               (fun template => Some (render template labels1)) None)
      with (if_truthy (FindingOverrides.description params)
              (fun template => Some (render template (templating_labels (subject ev))))
              None); [done|].
    destruct (FindingOverrides.description params) as [u|]; simpl; [|done].
    destruct (String.eqb u ""); [done|].
    f_equal. unfold render, Template.safe_substitute. symmetry. by apply sub_ext. }
  unfold customise_finding, bind.
  destruct (FindingOverrides.severity params) as [name|]; simpl.
  - destruct (String.eqb name ""); simpl.
    + rewrite <-Hrun. reflexivity.
    + destruct (FindingSeverity.getitem name) as [v|]; simpl; [|done].
      rewrite <-Hrun. reflexivity.
  - rewrite <-Hrun. reflexivity.
Qed.

(** [create_finding], when it returns, has appended one finding, which
    holds the aggregation key of the parameters. *)
Lemma aggregation_key_appended ev params ev' :
  create_finding params ev = (Returned tt, ev') ->
  exists f,
    findings ev' = findings ev ++ [f]
    /\ Finding.aggregation_key f = FindingFields.aggregation_key params.
Proof.
  rewrite create_finding_run.
  destruct (FindingSeverity.from_severity (FindingFields.severity params));
    [|discriminate].
  unfold add_finding. intros [= <-]. by eexists.
Qed.

(** [customise_finding] either raises at once, which it does only for a
    severity that is set, or makes its one call; the call gets no value for
    a parameter that is null. *)
Lemma customise_finding_cases params ev :
  (customise_finding params ev = (Raised InvalidSeverity, ev)
   /\ forall name v, FindingOverrides.severity params = Some name ->
                     FindingSeverity.getitem name = Some v -> False)
  \/ exists title description severity,
       customise_finding params ev
       = override_finding_attributes title description severity ev
       /\ (FindingOverrides.title params = None -> title = None)
       /\ (FindingOverrides.description params = None -> description = None)
       /\ (FindingOverrides.severity params = None -> severity = None)
       /\ (forall name v, FindingOverrides.severity params = Some name ->
                          FindingSeverity.getitem name = Some v -> severity = Some v).
Proof.
  rewrite customise_finding_run. cbv zeta.
  assert (forall (o : option string) (g : string -> option string),
            o = None -> if_truthy o g None = None) as Hnone by (by intros o g ->).
  destruct (FindingOverrides.severity params) as [name|] eqn:Hs; cbn [if_truthy].
  - destruct (String.eqb_spec name "") as [->|Hne].
    + right. do 3 eexists. split; [reflexivity|].
      split; [apply Hnone|]. split; [apply Hnone|]. split; [done|].
      intros name v [= <-] Hv. by vm_compute in Hv.
    + destruct (FindingSeverity.getitem name) as [v|] eqn:Hv.
      * right. do 3 eexists. split; [reflexivity|].
        split; [apply Hnone|]. split; [apply Hnone|]. split; [done|].
        intros name' v' [= <-] Hv'. congruence.
      * left. split; [done|]. intros name' v' [= <-] Hv'. congruence.
  - right. do 3 eexists. split; [reflexivity|].
    split; [apply Hnone|]. split; [apply Hnone|]. split; [done|]. done.
Qed.

End action_facts.

(** ** Severity names *)

Lemma getitem_unrecognised (name : string) :
  name ∉ FindingSeverity.names -> FindingSeverity.getitem name = None.
Proof.
  intros Hname. unfold FindingSeverity.getitem, FindingSeverity.members.
  cbn [FindingSeverity.lookup_name].
  repeat match goal with
         | |- context [String.eqb ?n name] =>
             destruct (String.eqb_spec n name) as [<-|_];
             [exfalso; apply Hname; by apply (bool_decide_unpack _)|]
         end.
  reflexivity.
Qed.

Lemma getitem_recognised (name : string) (v : FindingSeverity.t) :
  FindingSeverity.getitem name = Some v -> name ∈ FindingSeverity.names.
Proof.
  intros Hv. destruct (decide (name ∈ FindingSeverity.names)) as [|Hn]; [done|].
  rewrite (getitem_unrecognised name Hn) in Hv. discriminate.
Qed.

(** * The claims *)

Section claims.
Import ExecutionBaseEvent.

(** C1, as stated, fails: an empty severity string is set and is not one of
    the five names, yet [customise_finding] does not raise on it and makes
    its override call. *)
Lemma invalid_severity_counterexample :
  ~ (forall ev name,
       name ∉ FindingSeverity.names ->
       (forall title key description,
          create_finding (FindingFields.mk title key description (Some name)) ev
          = (Raised InvalidSeverity, ev))
       /\ (forall title description,
             customise_finding (FindingOverrides.mk title description (Some name)) ev
             = (Raised InvalidSeverity, ev))).
Proof.
  intros Hclaim.
  destruct (Hclaim example_event "") as [_ Hcustomise].
  - by apply (bool_decide_unpack _).
  - specialize (Hcustomise None None). vm_compute in Hcustomise. discriminate.
Qed.

(** C1, amended: for every event and every severity string that is not one
    of the five recognised names, [create_finding] raises [InvalidSeverity]
    and leaves the event as it was (no finding is added, no call is made on
    the event); [customise_finding] does the same, without making its
    override call, when the string is moreover not empty. *)
Theorem invalid_severity_raises ev (name : string) :
  name ∉ FindingSeverity.names ->
  (forall title key description,
     create_finding (FindingFields.mk title key description (Some name)) ev
     = (Raised InvalidSeverity, ev))
  /\ (name ≠ "" ->
      forall title description,
        customise_finding (FindingOverrides.mk title description (Some name)) ev
        = (Raised InvalidSeverity, ev)).
Proof.
  intros Hname. pose proof (getitem_unrecognised name Hname) as Hget. split.
  - intros title key description. rewrite create_finding_run.
    cbn [FindingFields.severity FindingSeverity.from_severity].
    unfold FindingSeverity.getitem in Hget. by rewrite Hget.
  - intros Hne title description. rewrite customise_finding_run.
    cbn [FindingOverrides.severity if_truthy].
    apply String.eqb_neq in Hne. by rewrite Hne, Hget.
Qed.

(** The severity "CRITICAL" on an event that holds a finding. *)
Lemma invalid_severity_raises_witness :
  create_finding (FindingFields.mk "Job $name failed" "Job Failure" None (Some "CRITICAL"))
                 event_with_finding
  = (Raised InvalidSeverity, event_with_finding)
  /\ customise_finding (FindingOverrides.mk (Some "New Title") None (Some "CRITICAL"))
                       event_with_finding
     = (Raised InvalidSeverity, event_with_finding).
Proof.
  assert ("CRITICAL" ∉ FindingSeverity.names) as Hname
    by (apply (bool_decide_unpack _); vm_compute; exact I).
  destruct (invalid_severity_raises event_with_finding "CRITICAL" Hname) as [Hc Ho].
  split; [apply Hc | apply Ho; discriminate].
Defined.

(** C4, as stated, fails: an empty namespace is not null, yet the label is
    the placeholder and not the empty string. *)
Lemma labels_namespace_counterexample :
  ~ (forall subject ns,
       FindingSubject.namespace subject = Some ns ->
       Mapping.value (templating_labels subject) "namespace" = Some ns).
Proof.
  intros Hclaim.
  specialize (Hclaim (FindingSubject.mk "api-1" (FindingSubjectType.mk "Pod") (Some "") None)
                     "" eq_refl).
  vm_compute in Hclaim. discriminate.
Qed.

(** C4, amended: for every subject whose namespace is null or empty, the
    labels map "namespace" to the placeholder "<missing>"; for every subject
    whose namespace is a non-empty string, they map "namespace" to that
    exact string; and the same holds for "node". *)
Theorem labels_namespace_node subject :
  (truthy (FindingSubject.namespace subject) = false ->
   Mapping.value (templating_labels subject) "namespace" = Some "<missing>")
  /\ (forall ns, FindingSubject.namespace subject = Some ns -> ns ≠ "" ->
        Mapping.value (templating_labels subject) "namespace" = Some ns)
  /\ (truthy (FindingSubject.node subject) = false ->
      Mapping.value (templating_labels subject) "node" = Some "<missing>")
  /\ (forall n, FindingSubject.node subject = Some n -> n ≠ "" ->
        Mapping.value (templating_labels subject) "node" = Some n).
Proof.
  rewrite labels_value_namespace, labels_value_node.
  repeat split.
  - destruct (FindingSubject.namespace subject) as [ns|]; simpl; [|done].
    by intros ->%negb_false_iff.
  - intros ns -> Hne%String.eqb_neq. simpl. by rewrite Hne.
  - destruct (FindingSubject.node subject) as [n|]; simpl; [|done].
    by intros ->%negb_false_iff.
  - intros n -> Hne%String.eqb_neq. simpl. by rewrite Hne.
Qed.

(** A pod in namespace "prod", with and without a node, and a node with an
    empty node name. *)
Lemma labels_namespace_node_witness :
  Mapping.value (templating_labels (api_pod None)) "namespace" = Some "prod"
  /\ Mapping.value (templating_labels (api_pod None)) "node" = Some "<missing>"
  /\ Mapping.value (templating_labels (api_pod (Some "worker-3"))) "node" = Some "worker-3"
  /\ Mapping.value
       (templating_labels (FindingSubject.mk "n1" (FindingSubjectType.mk "Node") None (Some "")))
       "namespace" = Some "<missing>".
Proof.
  destruct (labels_namespace_node (api_pod None)) as (_ & Hns & Hnode & _).
  destruct (labels_namespace_node (api_pod (Some "worker-3"))) as (_ & _ & _ & Hnode').
  destruct (labels_namespace_node
              (FindingSubject.mk "n1" (FindingSubjectType.mk "Node") None (Some "")))
    as (Hns' & _).
  split; [|split; [|split]].
  - apply Hns; [reflexivity | discriminate].
  - apply Hnode. reflexivity.
  - apply Hnode'; [reflexivity | discriminate].
  - apply Hns'. reflexivity.
Defined.

(** C2, as stated, fails: the labels built for a subject do not hold the key
    unknownVar, yet rendering "$unknownVar" against them gives "<missing>"
    and not the placeholder. *)
Lemma render_unknown_counterexample :
  ~ (forall subject,
       Mapping.contains (templating_labels subject) "unknownVar" = false ->
       render "$unknownVar" (templating_labels subject) = "$unknownVar").
Proof.
  intros Hclaim. specialize (Hclaim (api_pod None) eq_refl).
  vm_compute in Hclaim. discriminate.
Qed.

(** C2, amended: for every mapping without a default (a plain dict) that
    lacks the key unknownVar, rendering "$unknownVar" yields "$unknownVar"
    unchanged, and likewise for every identifier the mapping lacks, in the
    named and in the braced form; rendering never fails.  The labels that
    [create_finding] and [customise_finding] supply have the default
    "<missing>", so there a placeholder whose name is not a key is rendered
    as "<missing>". *)
Theorem render_unknown_plain_dict (m : gmap string string) (key : string) :
  Template.is_identifier key = true ->
  m !! key = None ->
  render ("$" +:+ key) (Mapping.dict m) = "$" +:+ key
  /\ render ("${" +:+ key +:+ "}") (Mapping.dict m) = "${" +:+ key +:+ "}"
  /\ (m !! "unknownVar" = None ->
      render "$unknownVar" (Mapping.dict m) = "$unknownVar")
  /\ (forall subject,
        render "$unknownVar" (templating_labels subject) = "<missing>").
Proof.
  intros Hid Hm. split; [|split; [|split]].
  - by rewrite (render_one_named key _ Hid), value_dict, Hm.
  - by rewrite (render_one_braced key _ Hid), value_dict, Hm.
  - intros Hu.
    by rewrite (render_one_named "unknownVar" _ eq_refl), value_dict, Hu.
  - intros subject.
    rewrite (render_one_named "unknownVar" _ eq_refl), labels_value_other;
      [done | by apply (bool_decide_unpack _)].
Qed.

(** A dict that holds the key kind only. *)
Lemma render_unknown_plain_dict_witness :
  render "$unknownVar" (Mapping.dict {["kind" := "Pod"]}) = "$unknownVar"
  /\ render "${unknownVar}" (Mapping.dict {["kind" := "Pod"]}) = "${unknownVar}".
Proof.
  destruct (render_unknown_plain_dict {["kind" := "Pod"]} "unknownVar")
    as (Hnamed & Hbraced & _); [reflexivity | reflexivity |].
  split; [exact Hnamed | exact Hbraced].
Defined.

(** C3: for every event and every placeholder key that is an identifier
    outside name, kind, namespace and node, the labels resolve the key to
    "<missing>" (they resolve every key to a value), and a title or
    description template built around the placeholder, in the named or the
    braced form, is rendered by [create_finding] and [customise_finding]
    with "<missing>" in its place. *)
Theorem unknown_key_renders_missing ev (key pre post : string) :
  Template.is_identifier key = true ->
  key ∉ label_keys ->
  Template.no_delimiter pre = true ->
  Template.ends_identifier post = true ->
  let labels := templating_labels (subject ev) in
  let named := pre +:+ "$" +:+ key +:+ post in
  let braced := pre +:+ "${" +:+ key +:+ "}" +:+ post in
  let text := pre +:+ "<missing>" +:+ render post labels in
  (forall k, is_Some (Mapping.value labels k))
  /\ Mapping.value labels key = Some "<missing>"
  /\ (forall aggregation_key,
        create_finding
          (FindingFields.make named aggregation_key (Some (Some braced)) None) ev
        = add_finding
            (Finding.mk text (Some text) aggregation_key FindingSeverity.HIGH
                        (subject ev) (source ev)) ev)
  /\ customise_finding (FindingOverrides.mk (Some braced) (Some named) None) ev
     = override_finding_attributes (Some text) (Some text) None ev.
Proof.
  intros Hid Hkey Hpre Hpost labels named braced text.
  assert (render named labels = text) as Hnamed.
  { change (render (pre +:+ String Template.delimiter (key +:+ post)) labels
            = pre +:+ "<missing>" +:+ render post labels).
    rewrite (render_named pre key post labels Hpre Hid Hpost).
    unfold labels. by rewrite labels_value_other. }
  assert (render braced labels = text) as Hbraced.
  { change (render (pre +:+ String Template.delimiter ("{" +:+ key +:+ "}" +:+ post))
                   labels
            = pre +:+ "<missing>" +:+ render post labels).
    rewrite (render_braced pre key post labels Hpre Hid).
    unfold labels. by rewrite labels_value_other. }
  assert (forall rest (f : string -> option string),
            if_truthy (Some (pre +:+ String Template.delimiter rest)) f None
            = f (pre +:+ String Template.delimiter rest)) as Hset.
  { intros rest f. by destruct pre. }
  assert (if_truthy (Some named) (fun t => Some (render t labels)) None = Some text)
    as Hnamed'.
  { rewrite <-Hnamed. apply (Hset (key +:+ post)). }
  assert (if_truthy (Some braced) (fun t => Some (render t labels)) None = Some text)
    as Hbraced'.
  { rewrite <-Hbraced. apply (Hset ("{" +:+ key +:+ "}" +:+ post)). }
  split; [|split; [|split]].
  - intros k. unfold Mapping.value.
    destruct (Mapping.items labels !! k); [by eexists|].
    unfold labels. rewrite templating_labels_factory. by eexists.
  - by apply labels_value_other.
  - intros aggregation_key.
    change (FindingFields.make named aggregation_key (Some (Some braced)) None)
      with (FindingFields.mk named aggregation_key (Some braced) (Some "HIGH")).
    rewrite create_finding_run.
    cbn [FindingFields.title FindingFields.description FindingFields.severity
         FindingFields.aggregation_key].
    change (FindingSeverity.from_severity (Some "HIGH")) with (Some FindingSeverity.HIGH).
    fold labels. by rewrite Hnamed, Hbraced'.
  - rewrite customise_finding_run.
    cbn [FindingOverrides.title FindingOverrides.description FindingOverrides.severity].
    fold labels. by rewrite Hnamed', Hbraced'.
Qed.

(** The placeholder owner between literal text. *)
Lemma unknown_key_renders_missing_witness :
  create_finding
    (FindingFields.make "Job $owner failed" "Job Failure" (Some (Some "Job ${owner} failed")) None)
    example_event
  = add_finding
      (Finding.mk "Job <missing> failed" (Some "Job <missing> failed") "Job Failure"
                  FindingSeverity.HIGH (api_pod None) "prometheus")
      example_event.
Proof.
  assert ("owner" ∉ label_keys) as Hkey
    by (apply (bool_decide_unpack _); vm_compute; exact I).
  destruct (unknown_key_renders_missing example_event "owner" "Job " " failed"
              eq_refl Hkey eq_refl eq_refl) as (_ & _ & Hcreate & _).
  exact (Hcreate "Job Failure").
Defined.

(** C5: for every event, [create_finding] with severity "DEBUG" returns
    and adds a finding whose severity is DEBUG; with the severity omitted,
    so that the declared default "HIGH" applies, it returns and adds a
    finding whose severity is HIGH. *)
Theorem create_finding_severity ev (title key : string)
    (description : option (option string)) :
  (exists f ev',
     create_finding (FindingFields.make title key description (Some (Some "DEBUG"))) ev
     = (Returned tt, ev')
     /\ findings ev' = findings ev ++ [f]
     /\ Finding.severity f = FindingSeverity.DEBUG)
  /\ (exists f ev',
        create_finding (FindingFields.make title key description None) ev
        = (Returned tt, ev')
        /\ findings ev' = findings ev ++ [f]
        /\ Finding.severity f = FindingSeverity.HIGH).
Proof.
  split; rewrite create_finding_run;
    cbn [FindingFields.make FindingFields.severity];
    [change (FindingSeverity.from_severity _) with (Some FindingSeverity.DEBUG)
    |change (FindingSeverity.from_severity _) with (Some FindingSeverity.HIGH)];
    unfold add_finding; do 2 eexists; (split; [reflexivity|]); by split.
Qed.

(** C8: for every call of [create_finding] that returns, the finding it adds
    holds the aggregation key of the parameters as it is, never rendered: a
    key that is written like a placeholder, such as "$name", stays that
    text. *)
Theorem aggregation_key_literal ev params ev' :
  create_finding params ev = (Returned tt, ev') ->
  exists f,
    findings ev' = findings ev ++ [f]
    /\ calls ev' = calls ev ++ [AddFinding f]
    /\ Finding.aggregation_key f = FindingFields.aggregation_key params.
Proof.
  rewrite create_finding_run.
  case_eq (FindingSeverity.from_severity (FindingFields.severity params));
    [|discriminate].
  intros severity _ Hrun. unfold add_finding in Hrun.
  injection Hrun as <-. eexists. cbn [findings calls].
  split; [reflexivity|]. by split.
Qed.

(** The same text "$name" as title and as aggregation key: the title is
    rendered, the key is not. *)
Lemma aggregation_key_literal_witness :
  exists f,
    findings (create_finding (FindingFields.make "$name" "$name" None None) example_event).2
    = [f]
    /\ Finding.title f = "api-1"
    /\ Finding.aggregation_key f = "$name".
Proof.
  destruct (aggregation_key_literal example_event
              (FindingFields.make "$name" "$name" None None)
              (create_finding (FindingFields.make "$name" "$name" None None) example_event).2
              eq_refl)
    as (f & Hfindings & _ & Hkey).
  exists f. split; [exact Hfindings|]. split; [|exact Hkey].
  vm_compute in Hfindings. by injection Hfindings as <-.
Defined.

(** C9: rendering "$kind/$namespace/$name" against the labels kind "Pod",
    namespace "prod", name "api-1" yields exactly "Pod/prod/api-1"; so it
    does against the labels of a subject with these attributes, whatever its
    node, and that is the title [create_finding] gives the finding. *)
Theorem render_kind_namespace_name :
  render "$kind/$namespace/$name"
         (Mapping.dict (<["name" := "api-1"]> (<["namespace" := "prod"]> {["kind" := "Pod"]})))
  = "Pod/prod/api-1"
  /\ (forall node,
        render "$kind/$namespace/$name" (templating_labels (api_pod node))
        = "Pod/prod/api-1")
  /\ Finding.title <$>
       findings
         (create_finding
            (FindingFields.make "$kind/$namespace/$name" "Crashing Pod" None None)
            example_event).2
     = ["Pod/prod/api-1"].
Proof.
  split; [by vm_compute|]. split; [|by vm_compute].
  intros node.
  change "$kind/$namespace/$name"
    with ("" +:+ String Template.delimiter ("kind" +:+ "/$namespace/$name")).
  rewrite render_named, labels_value_kind by reflexivity.
  change (render "/$namespace/$name" (templating_labels (api_pod node)))
    with (render ("/" +:+ String Template.delimiter ("namespace" +:+ "/$name"))
                 (templating_labels (api_pod node))).
  rewrite render_named, labels_value_namespace by reflexivity.
  change (render "/$name" (templating_labels (api_pod node)))
    with (render ("/" +:+ String Template.delimiter ("name" +:+ ""))
                 (templating_labels (api_pod node))).
  rewrite render_named, labels_value_name by reflexivity.
  reflexivity.
Qed.

(** C6: for every event, a call of [create_finding] that returns appends
    one finding to the findings of the event and keeps the earlier ones, in
    their order; two calls in a row whose aggregation keys differ leave the
    event with two more findings, distinct, each with its own key. *)
Theorem create_finding_appends ev params1 params2 ev1 ev2 :
  create_finding params1 ev = (Returned tt, ev1) ->
  create_finding params2 ev1 = (Returned tt, ev2) ->
  exists f1 f2,
    findings ev1 = findings ev ++ [f1]
    /\ findings ev2 = findings ev ++ [f1; f2]
    /\ length (findings ev2) = S (S (length (findings ev)))
    /\ Finding.aggregation_key f1 = FindingFields.aggregation_key params1
    /\ Finding.aggregation_key f2 = FindingFields.aggregation_key params2
    /\ (FindingFields.aggregation_key params1 ≠ FindingFields.aggregation_key params2 ->
        f1 ≠ f2).
Proof.
  intros H1 H2.
  destruct (aggregation_key_appended _ _ _ H1) as (f1 & Hf1 & Hk1).
  destruct (aggregation_key_appended _ _ _ H2) as (f2 & Hf2 & Hk2).
  exists f1, f2. rewrite Hf2, Hf1, <-app_assoc. cbn [app].
  split; [done|]. split; [done|]. split.
  { rewrite length_app. simpl. lia. }
  split; [done|]. split; [done|].
  intros Hne ->. apply Hne. congruence.
Qed.

(** Two findings added to an event that holds one. *)
Lemma create_finding_appends_witness :
  Finding.aggregation_key <$>
    findings
      (create_finding (FindingFields.make "Job $name failed" "Job Failure" None None)
         (create_finding (FindingFields.make "Pod $name crashed" "Crashing Pod" None None)
            event_with_finding).2).2
  = ["Crashing Pod"; "Crashing Pod"; "Job Failure"].
Proof.
  destruct (create_finding_appends event_with_finding
              (FindingFields.make "Pod $name crashed" "Crashing Pod" None None)
              (FindingFields.make "Job $name failed" "Job Failure" None None)
              (create_finding (FindingFields.make "Pod $name crashed" "Crashing Pod" None None)
                 event_with_finding).2
              (create_finding (FindingFields.make "Job $name failed" "Job Failure" None None)
                 (create_finding (FindingFields.make "Pod $name crashed" "Crashing Pod" None None)
                    event_with_finding).2).2
              eq_refl eq_refl)
    as (f1 & f2 & _ & Hfindings & _ & Hk1 & Hk2 & _).
  rewrite Hfindings, fmap_app. cbn [fmap list_fmap]. by rewrite Hk1, Hk2.
Defined.

(** C7: for every event that holds a finding, [customise_finding] adds no
    finding: the event holds as many findings afterwards and no call that
    adds one is made.  The finding keeps every attribute whose parameter is
    null, and its aggregation key, subject and source in any case; with
    only a recognised severity set, it is the finding it was but for the
    severity, so a finding titled "Old Title" keeps that title. *)
Theorem customise_finding_frame ev params (i : nat) (f : Finding.t) :
  findings ev !! i = Some f ->
  let ev' := (customise_finding params ev).2 in
  length (findings ev') = length (findings ev)
  /\ (exists new, calls ev' = calls ev ++ new /\ forall g, AddFinding g ∉ new)
  /\ exists f',
       findings ev' !! i = Some f'
       /\ (FindingOverrides.title params = None -> Finding.title f' = Finding.title f)
       /\ (FindingOverrides.description params = None ->
           Finding.description f' = Finding.description f)
       /\ (FindingOverrides.severity params = None ->
           Finding.severity f' = Finding.severity f)
       /\ Finding.aggregation_key f' = Finding.aggregation_key f
       /\ Finding.subject f' = Finding.subject f
       /\ Finding.source f' = Finding.source f
       /\ (forall name v,
             params = FindingOverrides.mk None None (Some name) ->
             FindingSeverity.getitem name = Some v ->
             f' = Finding.mk (Finding.title f) (Finding.description f)
                             (Finding.aggregation_key f) v
                             (Finding.subject f) (Finding.source f)).
Proof.
  intros Hf ev'.
  destruct (customise_finding_cases params ev) as [Hraise | Hcall].
  - assert (ev' = ev) as -> by (unfold ev'; by rewrite (proj1 Hraise)).
    split; [done|]. split.
    { exists []. rewrite app_nil_r. split; [done|]. intros g. apply not_elem_of_nil. }
    exists f. repeat (split; [done|]).
    intros name v -> Hv. destruct Hraise as [_ Hraise].
    specialize (Hraise name v eq_refl). congruence.
  - destruct Hcall as (title & description & severity & Hrun & Ht & Hd & Hs & Hset).
    assert (ev' = (override_finding_attributes title description severity ev).2)
      as -> by (unfold ev'; by rewrite Hrun).
    cbn [override_finding_attributes snd findings calls].
    split; [by rewrite length_fmap|]. split.
    { eexists. split; [reflexivity|]. intros g [Hg|Hg]%elem_of_cons; [discriminate|].
      by apply not_elem_of_nil in Hg. }
    exists (override_attributes title description severity f).
    split; [by rewrite list_lookup_fmap, Hf|].
    split; [by intros ->%Ht|]. split; [by intros ->%Hd|]. split; [by intros ->%Hs|].
    do 3 (split; [done|]).
    intros name v -> Hv.
    rewrite (Ht eq_refl), (Hd eq_refl), (Hset name v eq_refl Hv). reflexivity.
Qed.

(** Only the severity set, on the finding titled "Old Title". *)
Lemma customise_finding_frame_witness :
  findings (customise_finding (FindingOverrides.mk None None (Some "LOW"))
                              event_with_finding).2
  = [Finding.mk "Old Title" (Some "Old description") "Crashing Pod"
                FindingSeverity.LOW (api_pod None) "prometheus"].
Proof.
  destruct (customise_finding_frame event_with_finding
              (FindingOverrides.mk None None (Some "LOW")) 0 old_finding eq_refl)
    as (Hlen & _ & f' & Hf' & _ & _ & _ & _ & _ & _ & Honly).
  rewrite (Honly "LOW" FindingSeverity.LOW eq_refl eq_refl) in Hf'.
  destruct (findings _) as [|g [|g' rest]]; [discriminate Hlen| |discriminate Hlen].
  by injection Hf' as ->.
Defined.

(** C10: for every event, [customise_finding] treats a parameter that is the
    empty string as it treats an absent one: an empty title or description
    is not rendered and the override call gets no value for it, and an
    empty severity is not parsed: whatever the other parameters, the call
    returns, passes no severity, and the severities of the findings stay as
    they were. *)
Theorem customise_finding_empty_is_absent ev (title description severity : option string) :
  customise_finding (FindingOverrides.mk (Some "") description severity) ev
  = customise_finding (FindingOverrides.mk None description severity) ev
  /\ customise_finding (FindingOverrides.mk title (Some "") severity) ev
     = customise_finding (FindingOverrides.mk title None severity) ev
  /\ customise_finding (FindingOverrides.mk title description (Some "")) ev
     = customise_finding (FindingOverrides.mk title description None) ev
  /\ customise_finding (FindingOverrides.mk (Some "") (Some "") (Some "")) ev
     = override_finding_attributes None None None ev
  /\ (exists title' description',
        customise_finding (FindingOverrides.mk title description (Some "")) ev
        = override_finding_attributes title' description' None ev)
  /\ Finding.severity <$>
       findings (customise_finding (FindingOverrides.mk title description (Some "")) ev).2
     = Finding.severity <$> findings ev.
Proof.
  rewrite !customise_finding_run.
  cbn [FindingOverrides.title FindingOverrides.description FindingOverrides.severity].
  do 4 (split; [reflexivity|]).
  split; [by do 2 eexists|].
  cbn [if_truthy String.eqb override_finding_attributes snd findings].
  rewrite <-list_fmap_compose. by apply list_fmap_ext.
Qed.

End claims.

(** * Further properties of the templates and the actions *)

(** ** Delimiters that are not placeholders *)

Section delimiter_facts.
Import Template.
Implicit Types (d : Mapping.t).

Lemma render_prefix (pre s : string) d :
  no_delimiter pre = true -> render (pre +:+ s) d = pre +:+ render s d.
Proof.
  intros Hpre. unfold render, safe_substitute. by rewrite (sub_literal _ _ _ Hpre).
Qed.

Lemma render_literal (s : string) d : no_delimiter s = true -> render s d = s.
Proof.
  intros Hs. rewrite <-(append_empty_r s) at 1.
  rewrite (render_prefix _ _ _ Hs). apply append_empty_r.
Qed.

Lemma render_two_delimiters (post : string) d :
  render (String delimiter (String delimiter post)) d
  = String delimiter (render post d).
Proof.
  unfold render, safe_substitute. cbn [sub].
  change (Ascii.eqb delimiter delimiter) with true. cbv iota.
  change (pattern_at (String delimiter post)) with escaped.
  cbn [convert group0]. change (String.length "$$" - 1) with 1. cbn [sub].
  by destruct (sub 0 post d).
Qed.

Lemma render_lone_delimiter (post : string) d :
  pattern_at post = invalid ->
  render (String delimiter post) d = String delimiter (render post d).
Proof.
  intros Hp. unfold render, safe_substitute. cbn [sub].
  change (Ascii.eqb delimiter delimiter) with true. cbv iota.
  rewrite Hp. cbn [convert group0]. change (String.length "$" - 1) with 0.
  by destruct (sub 0 post d).
Qed.

End delimiter_facts.

(** ** Severity names, continued *)

Lemma getitem_member (name : string) :
  name ∈ FindingSeverity.names -> is_Some (FindingSeverity.getitem name).
Proof.
  unfold FindingSeverity.names, FindingSeverity.members. cbn [fmap list_fmap fst].
  rewrite !elem_of_cons, elem_of_nil.
  intros [->|[->|[->|[->|[->|[]]]]]]; by eexists.
Qed.

Lemma getitem_is_Some_iff (name : string) :
  is_Some (FindingSeverity.getitem name) <-> name ∈ FindingSeverity.names.
Proof.
  split; [|apply getitem_member].
  intros [v Hv]. by apply (getitem_recognised name v).
Qed.

(** ** The labels and the rendered fields *)

Section further_properties.
Import ExecutionBaseEvent.

(** X1: for every subject, a placeholder for name, kind, namespace or node,
    between literal text and text that ends the identifier, is replaced by
    the subject's name, the value of its kind, and its namespace and node,
    the last two giving "<missing>" when they are null or empty. *)
Theorem known_placeholders_render subject (pre post : string) :
  Template.no_delimiter pre = true ->
  Template.ends_identifier post = true ->
  let labels := templating_labels subject in
  render (pre +:+ "$name" +:+ post) labels
  = pre +:+ FindingSubject.name subject +:+ render post labels
  /\ render (pre +:+ "$kind" +:+ post) labels
     = pre +:+ FindingSubjectType.value (FindingSubject.subject_type subject)
           +:+ render post labels
  /\ render (pre +:+ "$namespace" +:+ post) labels
     = pre +:+ if_truthy (FindingSubject.namespace subject) id "<missing>"
           +:+ render post labels
  /\ render (pre +:+ "${node}" +:+ post) labels
     = pre +:+ if_truthy (FindingSubject.node subject) id "<missing>"
           +:+ render post labels.
Proof.
  intros Hpre Hpost labels. split; [|split; [|split]].
  - change (pre +:+ "$name" +:+ post)
      with (pre +:+ String Template.delimiter ("name" +:+ post)).
    rewrite render_named by done. unfold labels. by rewrite labels_value_name.
  - change (pre +:+ "$kind" +:+ post)
      with (pre +:+ String Template.delimiter ("kind" +:+ post)).
    rewrite render_named by done. unfold labels. by rewrite labels_value_kind.
  - change (pre +:+ "$namespace" +:+ post)
      with (pre +:+ String Template.delimiter ("namespace" +:+ post)).
    rewrite render_named by done. unfold labels. by rewrite labels_value_namespace.
  - change (pre +:+ "${node}" +:+ post)
      with (pre +:+ String Template.delimiter ("{" +:+ "node" +:+ "}" +:+ post)).
    rewrite render_braced by done. unfold labels. by rewrite labels_value_node.
Qed.

(** A job name between the words of a title. *)
Lemma known_placeholders_render_witness :
  render "Job $name failed" (templating_labels (api_pod None)) = "Job api-1 failed"
  /\ render "Job ${node} failed" (templating_labels (api_pod None))
     = "Job <missing> failed".
Proof.
  destruct (known_placeholders_render (api_pod None) "Job " " failed" eq_refl eq_refl)
    as (Hname & _ & _ & Hnode).
  split; [exact Hname | exact Hnode].
Defined.

(** X2: a title without a dollar sign is the title of the finding
    [create_finding] adds, character for character, and, when it is not
    empty, the title [customise_finding] passes to its override call. *)
Theorem literal_title_kept ev (title key : string) (description : option string) :
  Template.no_delimiter title = true ->
  (forall severity ev',
     create_finding (FindingFields.mk title key description severity) ev
     = (Returned tt, ev') ->
     exists f, findings ev' = findings ev ++ [f] /\ Finding.title f = title)
  /\ (title ≠ "" ->
      exists description',
        customise_finding (FindingOverrides.mk (Some title) description None) ev
        = override_finding_attributes (Some title) description' None ev).
Proof.
  intros Htitle. split.
  - intros severity ev'. rewrite create_finding_run.
    cbn [FindingFields.title FindingFields.severity].
    destruct (FindingSeverity.from_severity severity); [|discriminate].
    unfold add_finding. intros [= <-]. eexists. split; [reflexivity|].
    cbn [Finding.title]. by apply render_literal.
  - intros Hne%String.eqb_neq. rewrite customise_finding_run.
    cbn [FindingOverrides.title FindingOverrides.severity if_truthy].
    rewrite Hne, (render_literal _ _ Htitle). by eexists.
Qed.

(** The example aggregation text as a title. *)
Lemma literal_title_kept_witness :
  exists f,
    findings (create_finding (FindingFields.mk "Job Failure" "k" None (Some "LOW"))
                             example_event).2 = [f]
    /\ Finding.title f = "Job Failure".
Proof.
  destruct (literal_title_kept example_event "Job Failure" "k" None eq_refl)
    as [Hcreate _].
  exact (Hcreate (Some "LOW")
           (create_finding (FindingFields.mk "Job Failure" "k" None (Some "LOW"))
                           example_event).2 eq_refl).
Defined.

(** X3: two dollar signs in a row are rendered as one dollar sign, whatever
    the mapping, and rendering goes on after them. *)
Theorem doubled_delimiter_is_escape (pre post : string) (d : Mapping.t) :
  Template.no_delimiter pre = true ->
  render (pre +:+ "$$" +:+ post) d = pre +:+ "$" +:+ render post d.
Proof.
  intros Hpre. rewrite (render_prefix _ _ _ Hpre).
  change ("$$" +:+ post) with (String Template.delimiter (String Template.delimiter post)).
  by rewrite render_two_delimiters.
Qed.

(** An escaped dollar sign before a word that is a label key. *)
Lemma doubled_delimiter_is_escape_witness :
  render "cost $$name of $name" (templating_labels (api_pod None))
  = "cost $name of api-1".
Proof.
  rewrite (doubled_delimiter_is_escape "cost " "name of $name" _ eq_refl).
  reflexivity.
Defined.

(** X4: a dollar sign that starts no placeholder (it ends the template, or
    what follows is neither a second dollar sign, nor an identifier, nor a
    braced identifier) is kept, and rendering goes on after it, so that an
    unterminated brace does not hide a later placeholder. *)
Theorem lone_delimiter_kept (pre post : string) (d : Mapping.t) :
  Template.no_delimiter pre = true ->
  Template.pattern_at post = Template.invalid ->
  render (pre +:+ "$" +:+ post) d = pre +:+ "$" +:+ render post d.
Proof.
  intros Hpre Hpost. rewrite (render_prefix _ _ _ Hpre).
  change ("$" +:+ post) with (String Template.delimiter post).
  by rewrite (render_lone_delimiter _ _ Hpost).
Qed.

(** An amount, a closing dollar sign and an unterminated brace. *)
Lemma lone_delimiter_kept_witness :
  render "costs $5" (templating_labels (api_pod None)) = "costs $5"
  /\ render "100$" (templating_labels (api_pod None)) = "100$"
  /\ render "pod ${name is $name" (templating_labels (api_pod None))
     = "pod ${name is api-1".
Proof.
  split; [|split].
  - by rewrite (lone_delimiter_kept "costs " "5" _ eq_refl eq_refl).
  - by rewrite (lone_delimiter_kept "100" "" _ eq_refl eq_refl).
  - by rewrite (lone_delimiter_kept "pod " "{name is $name" _ eq_refl eq_refl).
Defined.

(** X5: the title and the description of the finding [create_finding] adds
    are each rendered as against the labels freshly built from the subject:
    the defaults that rendering the title stores in the shared labels do
    not change how the description is rendered. *)
Theorem title_and_description_rendered_alike ev params ev' :
  create_finding params ev = (Returned tt, ev') ->
  exists f,
    findings ev' = findings ev ++ [f]
    /\ Finding.title f
       = render (FindingFields.title params) (templating_labels (subject ev))
    /\ Finding.description f
       = if_truthy (FindingFields.description params)
           (fun template => Some (render template (templating_labels (subject ev))))
           None.
Proof.
  rewrite create_finding_run.
  destruct (FindingSeverity.from_severity (FindingFields.severity params));
    [|discriminate].
  unfold add_finding. intros [= <-]. by eexists.
Qed.

(** The same unknown placeholder in the title and in the description. *)
Lemma title_and_description_rendered_alike_witness :
  exists f,
    findings (create_finding
                (FindingFields.mk "$owner" "k" (Some "$owner of $name") (Some "INFO"))
                example_event).2 = [f]
    /\ Finding.title f = "<missing>"
    /\ Finding.description f = Some "<missing> of api-1".
Proof.
  destruct (title_and_description_rendered_alike example_event
              (FindingFields.mk "$owner" "k" (Some "$owner of $name") (Some "INFO"))
              (create_finding
                 (FindingFields.mk "$owner" "k" (Some "$owner of $name") (Some "INFO"))
                 example_event).2 eq_refl)
    as (f & Hf & Ht & Hd).
  exists f. split; [exact Hf|]. split; [by rewrite Ht | by rewrite Hd].
Defined.

(** X6: the finding [create_finding] adds has no description exactly when
    the description parameter is null or empty; an empty description is not
    rendered to an empty text. *)
Theorem description_absent_iff ev params ev' :
  create_finding params ev = (Returned tt, ev') ->
  exists f,
    findings ev' = findings ev ++ [f]
    /\ (Finding.description f = None <-> truthy (FindingFields.description params) = false).
Proof.
  rewrite create_finding_run.
  destruct (FindingSeverity.from_severity (FindingFields.severity params));
    [|discriminate].
  unfold add_finding. intros [= <-]. eexists. split; [reflexivity|].
  cbn [Finding.description].
  destruct (FindingFields.description params) as [u|]; simpl; [|done].
  by destruct (String.eqb u "").
Qed.

(** An empty description. *)
Lemma description_absent_iff_witness :
  Finding.description <$>
    findings (create_finding (FindingFields.mk "t" "k" (Some "") (Some "HIGH"))
                             example_event).2
  = [None].
Proof.
  destruct (description_absent_iff example_event
              (FindingFields.mk "t" "k" (Some "") (Some "HIGH"))
              (create_finding (FindingFields.mk "t" "k" (Some "") (Some "HIGH"))
                              example_event).2 eq_refl)
    as (f & Hf & Hiff).
  pose proof (proj2 Hiff eq_refl) as Hd.
  rewrite Hf. change (findings example_event ++ [f]) with [f].
  cbn [fmap list_fmap]. by rewrite Hd.
Defined.

End further_properties.

(** ** When the actions return, and what they leave alone *)

Section action_outcomes.
Import ExecutionBaseEvent.

(** What [create_finding] appends when it returns. *)
Lemma title_rendered_appended ev params ev' :
  create_finding params ev = (Returned tt, ev') ->
  exists f,
    findings ev' = findings ev ++ [f]
    /\ subject ev' = subject ev
    /\ Finding.aggregation_key f = FindingFields.aggregation_key params
    /\ Finding.title f
       = render (FindingFields.title params) (templating_labels (subject ev)).
Proof.
  rewrite create_finding_run.
  destruct (FindingSeverity.from_severity (FindingFields.severity params));
    [|discriminate].
  unfold add_finding. intros [= <-]. by eexists.
Qed.

Lemma override_attributes_twice title description severity (f : Finding.t) :
  override_attributes title description severity
    (override_attributes title description severity f)
  = override_attributes title description severity f.
Proof.
  unfold override_attributes. destruct f as [t d k s sub src]. cbn.
  by destruct title, description, severity.
Qed.

Lemma customise_finding_subject params ev :
  subject (customise_finding params ev).2 = subject ev.
Proof.
  destruct (customise_finding_cases params ev)
    as [[-> _] | (title & description & severity & -> & _)]; reflexivity.
Qed.

(** X7: [create_finding] returns exactly when its severity parameter is one
    of the five recognised names, whatever the title and description
    templates are; otherwise it raises [InvalidSeverity] and the event is
    as it was. *)
Theorem create_finding_returns_iff ev params :
  ((create_finding params ev).1 = Returned tt
   <-> exists name, FindingFields.severity params = Some name
                    /\ name ∈ FindingSeverity.names)
  /\ ((create_finding params ev).1 ≠ Returned tt ->
      create_finding params ev = (Raised InvalidSeverity, ev)).
Proof.
  rewrite create_finding_run.
  destruct (FindingFields.severity params) as [name|];
    cbn [FindingSeverity.from_severity].
  - fold (FindingSeverity.getitem name).
    destruct (FindingSeverity.getitem name) as [v|] eqn:Hv.
    + split; [|by intros []]. split; [|done].
      intros _. exists name. split; [done|]. by apply (getitem_recognised name v).
    + split; [|done]. split; [discriminate|].
      intros (name' & [= <-] & [v Hv']%getitem_member). congruence.
  - split; [|done]. split; [discriminate|]. by intros (name & [=] & _).
Qed.

(** A malformed title with a recognised severity, and a lower-case name. *)
Lemma create_finding_returns_iff_witness :
  (create_finding (FindingFields.mk "${ $ $$ ${x" "k" None (Some "MEDIUM")) example_event).1
  = Returned tt
  /\ create_finding (FindingFields.mk "t" "k" None (Some "medium")) event_with_finding
     = (Raised InvalidSeverity, event_with_finding).
Proof.
  split.
  - apply (create_finding_returns_iff example_event
             (FindingFields.mk "${ $ $$ ${x" "k" None (Some "MEDIUM"))).
    exists "MEDIUM". split; [reflexivity|].
    apply (bool_decide_unpack _). vm_compute. exact I.
  - apply (create_finding_returns_iff event_with_finding
             (FindingFields.mk "t" "k" None (Some "medium"))).
    discriminate.
Defined.


(** X9: for every subject, the labels hold exactly the keys name, kind,
    namespace and node, and the labels of namespace and node are never the
    empty text. *)
Theorem labels_keys_and_no_blank subject :
  (forall k, Mapping.contains (templating_labels subject) k = true <-> k ∈ label_keys)
  /\ Mapping.value (templating_labels subject) "namespace" ≠ Some ""
  /\ Mapping.value (templating_labels subject) "node" ≠ Some "".
Proof.
  assert (forall o : option string, if_truthy o id missing ≠ "") as Hblank.
  { intros [s|]; simpl; [|done].
    destruct (String.eqb_spec s "") as [->|Hne]; done. }
  split; [|split].
  - intros k. unfold Mapping.contains. rewrite bool_decide_eq_true. split.
    + intros Hsome. destruct (decide (k ∈ label_keys)) as [|Hk]; [done|].
      rewrite (labels_items_other subject k Hk) in Hsome. by destruct Hsome.
    + unfold label_keys. rewrite !elem_of_cons, elem_of_nil.
      rewrite templating_labels_items.
      intros [->|[->|[->|[->|[]]]]]; simplify_map_eq; by eexists.
  - rewrite labels_value_namespace. intros [= H]. by apply Hblank in H.
  - rewrite labels_value_node. intros [= H]. by apply Hblank in H.
Qed.

(** X10: neither action changes the subject or the source of the event, and
    the finding [create_finding] adds carries the subject and the source of
    the event. *)
Theorem subject_and_source_carried ev :
  (forall params,
     subject (customise_finding params ev).2 = subject ev
     /\ source (customise_finding params ev).2 = source ev)
  /\ (forall params,
        subject (create_finding params ev).2 = subject ev
        /\ source (create_finding params ev).2 = source ev
        /\ forall f, f ∈ drop (length (findings ev)) (findings (create_finding params ev).2) ->
                     Finding.subject f = subject ev /\ Finding.source f = source ev).
Proof.
  split; intros params.
  - destruct (customise_finding_cases params ev)
      as [[-> _] | (title & description & severity & -> & _)]; by split.
  - rewrite create_finding_run.
    destruct (FindingSeverity.from_severity (FindingFields.severity params)).
    + unfold add_finding. cbn [snd subject source findings].
      split; [done|]. split; [done|].
      rewrite drop_app_length. by intros f ->%list_elem_of_singleton.
    + cbn [snd]. split; [done|]. split; [done|].
      rewrite drop_all. by intros f ?%elem_of_nil.
Qed.

(** X11: running [customise_finding] twice with the same parameters leaves
    the findings as running it once does. *)
Theorem customise_finding_twice ev params :
  findings (customise_finding params (customise_finding params ev).2).2
  = findings (customise_finding params ev).2.
Proof.
  rewrite (customise_finding_run params (customise_finding params ev).2).
  rewrite customise_finding_subject.
  rewrite (customise_finding_run params ev). cbv zeta.
  assert (forall t d s,
            findings (override_finding_attributes t d s
                        (override_finding_attributes t d s ev).2).2
            = findings (override_finding_attributes t d s ev).2) as Htwice.
  { intros t d s. cbn [override_finding_attributes snd findings].
    rewrite <-list_fmap_compose. apply list_fmap_ext.
    intros i f _. apply override_attributes_twice. }
  destruct (FindingOverrides.severity params) as [name|]; cbn [if_truthy];
    [|apply Htwice].
  destruct (String.eqb name ""); [apply Htwice|].
  destruct (FindingSeverity.getitem name); [apply Htwice|reflexivity].
Qed.

(** X12: when [create_finding] and then [customise_finding] return, the
    last finding of the event is the one that was created, with the
    aggregation key of the creation, and its title is the overriding title,
    rendered, if that is neither null nor empty, and the created title
    otherwise. *)
Theorem create_then_customise ev fields overrides ev1 ev2 :
  create_finding fields ev = (Returned tt, ev1) ->
  customise_finding overrides ev1 = (Returned tt, ev2) ->
  exists f,
    last (findings ev2) = Some f
    /\ length (findings ev2) = S (length (findings ev))
    /\ Finding.aggregation_key f = FindingFields.aggregation_key fields
    /\ Finding.title f
       = if_truthy (FindingOverrides.title overrides)
           (fun template => render template (templating_labels (subject ev)))
           (render (FindingFields.title fields) (templating_labels (subject ev))).
Proof.
  intros Hcreate Hcustomise.
  destruct (title_rendered_appended _ _ _ Hcreate) as (f & Hf & Hsub & Hk & Ht).
  rewrite customise_finding_run in Hcustomise. cbv zeta in Hcustomise.
  rewrite Hsub in Hcustomise.
  set (title := if_truthy (FindingOverrides.title overrides) _ None) in Hcustomise.
  set (description := if_truthy (FindingOverrides.description overrides) _ None)
    in Hcustomise.
  assert (exists severity,
            ev2 = (override_finding_attributes title description severity ev1).2)
    as [severity ->].
  { destruct (FindingOverrides.severity overrides) as [name|];
      cbn [if_truthy] in Hcustomise.
    - destruct (String.eqb name "").
      + exists None. by rewrite Hcustomise.
      + destruct (FindingSeverity.getitem name) as [v|]; [|discriminate].
        exists (Some v). by rewrite Hcustomise.
    - exists None. by rewrite Hcustomise. }
  exists (override_attributes title description severity f).
  cbn [override_finding_attributes snd findings]. rewrite Hf, fmap_app.
  cbn [fmap list_fmap]. split; [apply last_snoc|]. split.
  { rewrite length_app, length_fmap. simpl. lia. }
  split; [done|]. cbn [override_attributes Finding.title]. rewrite Ht.
  unfold title. destruct (FindingOverrides.title overrides) as [t|]; simpl; [|done].
  by destruct (String.eqb t "").
Qed.

(** A finding created and then given a new title. *)
Lemma create_then_customise_witness :
  exists f,
    last (findings
            (customise_finding (FindingOverrides.mk (Some "$kind $name") None None)
               (create_finding (FindingFields.mk "Old Title" "$name" None (Some "LOW"))
                  example_event).2).2) = Some f
    /\ Finding.title f = "Pod api-1"
    /\ Finding.aggregation_key f = "$name".
Proof.
  destruct (create_then_customise example_event
              (FindingFields.mk "Old Title" "$name" None (Some "LOW"))
              (FindingOverrides.mk (Some "$kind $name") None None)
              (create_finding (FindingFields.mk "Old Title" "$name" None (Some "LOW"))
                 example_event).2
              (customise_finding (FindingOverrides.mk (Some "$kind $name") None None)
                 (create_finding (FindingFields.mk "Old Title" "$name" None (Some "LOW"))
                    example_event).2).2
              eq_refl eq_refl)
    as (f & Hlast & _ & Hk & Ht).
  exists f. split; [exact Hlast|]. split; [by rewrite Ht | exact Hk].
Defined.

End action_outcomes.
